(** * zod.overload: runtime method overloading driven by Zod schemas

    A shallow embedding of [src/dist/zod.overload.js] together with the part
    of the Zod 3 runtime the decorator calls ([z.custom], [.and],
    [.safeParse], the tuple and array parsers), and the properties of the
    dispatch algorithm proved over it. *)

From Stdlib Require Import List String Ascii ZArith Bool Lia.
Import ListNotations.
Local Open Scope string_scope.
Local Open Scope list_scope.
Set Warnings "-register-all".

(* ================================================================== *)
(** * JavaScript values, exceptions and completion records            *)
(* ================================================================== *)

(** The values the dispatcher handles.  Numbers are the integral finite
    ones (argument counts and the literals of the examples) and [NaN],
    the one value that is not strictly equal to itself; [VObject] is a
    reference to an object whose properties are not modelled (class
    prototypes, instances); arrays are compared element by element since
    reference identity of arrays is not tracked. *)
Inductive value : Type :=
| VUndefined
| VNull
| VBool (b : bool)
| VNumber (n : Z)
| VNaN
| VString (s : string)
| VObject (ref : nat)
| VArray (elems : list value).

Inductive exn : Type :=
| TypeError (msg : string)
| Thrown (v : value).

(** A JavaScript expression either completes normally or throws. *)
Inductive result (A : Type) : Type :=
| Ok (a : A)
| Throw (e : exn).
Arguments Ok {A} a.
Arguments Throw {A} e.

Definition bind {A B} (c : result A) (k : A -> result B) : result B :=
  match c with
  | Ok a => k a
  | Throw e => Throw e
  end.

Notation "x <- c ;; k" := (bind c (fun x => k))
  (at level 61, c at next level, right associativity).

(** [Array.prototype.map] with a callback that may throw: elements are
    visited left to right and the first exception ends the loop. *)
Fixpoint mapM {A B} (f : A -> result B) (l : list A) : result (list B) :=
  match l with
  | [] => Ok []
  | x :: xs => y <- f x ;; ys <- mapM f xs ;; Ok (y :: ys)
  end.

(** [a === b] on values that are not arrays; [NaN === NaN] is false. *)
Definition strict_equals (a b : value) : bool :=
  match a, b with
  | VUndefined, VUndefined => true
  | VNull, VNull => true
  | VBool x, VBool y => Bool.eqb x y
  | VNumber x, VNumber y => Z.eqb x y
  | VString x, VString y => String.eqb x y
  | VObject x, VObject y => Nat.eqb x y
  | _, _ => false
  end.

(** [data.length]: reading a property of [undefined] or [null] throws;
    strings and arrays have a length; other primitives and the opaque
    objects have none. *)
Definition get_length (data : value) : result value :=
  match data with
  | VUndefined =>
      Throw (TypeError "Cannot read properties of undefined (reading 'length')")
  | VNull =>
      Throw (TypeError "Cannot read properties of null (reading 'length')")
  | VString s => Ok (VNumber (Z.of_nat (String.length s)))
  | VArray l => Ok (VNumber (Z.of_nat (List.length l)))
  | _ => Ok VUndefined
  end.

(* ================================================================== *)
(** * The Zod runtime used by the decorator                           *)
(* ================================================================== *)

Module Zod.

(** The schemas: [z.undefined()], [z.string()], [z.number()], [z.any()],
    [z.tuple(items)] with an optional [.rest(r)], [z.array(element)],
    [z.custom(check)] and [lhs.and(rhs)].  A [check] is taken as a
    function of the value it is given, which may throw: checks that keep
    state or act on the world are outside this model. *)
Inductive ZodTypeAny : Type :=
| ZodUndefined
| ZodString
| ZodNumber
| ZodAny
| ZodTuple (items : list ZodTypeAny) (rest : option ZodTypeAny)
| ZodArray (element : ZodTypeAny)
| ZodCustom (check : value -> result bool)
| ZodIntersection (lhs rhs : ZodTypeAny).

(** [schema._def.typeName]; [z.custom] builds a [ZodAny] refined by
    [superRefine], whose type name is that of [ZodEffects]. *)
Definition typeName (schema : ZodTypeAny) : string :=
  match schema with
  | ZodUndefined => "ZodUndefined"
  | ZodString => "ZodString"
  | ZodNumber => "ZodNumber"
  | ZodAny => "ZodAny"
  | ZodTuple _ _ => "ZodTuple"
  | ZodArray _ => "ZodArray"
  | ZodCustom _ => "ZodEffects"
  | ZodIntersection _ _ => "ZodIntersection"
  end.

Definition custom (check : value -> result bool) : ZodTypeAny :=
  ZodCustom check.

Definition and (lhs rhs : ZodTypeAny) : ZodTypeAny :=
  ZodIntersection lhs rhs.

(** What [_parse] returns: [{status: "valid", value}],
    [{status: "dirty", value}] or [INVALID] ([{status: "aborted"}]). *)
Inductive ParseReturnType : Type :=
| VALID (v : value)
| DIRTY (v : value)
| INVALID.

(** [ParseStatus.mergeArray(status, results)]. *)
Fixpoint mergeArray_loop (dirty : bool) (arrayValue : list value)
  (results : list ParseReturnType) : ParseReturnType :=
  match results with
  | [] => if dirty then DIRTY (VArray arrayValue)
          else VALID (VArray arrayValue)
  | INVALID :: _ => INVALID
  | DIRTY v :: rest => mergeArray_loop true (arrayValue ++ [v]) rest
  | VALID v :: rest => mergeArray_loop dirty (arrayValue ++ [v]) rest
  end.

Definition mergeArray (dirty : bool) (results : list ParseReturnType)
  : ParseReturnType :=
  mergeArray_loop dirty [] results.

(** [mergeValues(a, b)] of the intersection parser; [None] is
    [{valid: false}].  Two arrays are merged index by index when their
    lengths agree; anything else must be strictly equal. *)
Fixpoint mergeValues (a b : value) {struct a} : option value :=
  match a, b with
  | VArray la, VArray lb =>
      if Nat.eqb (List.length la) (List.length lb) then
        option_map VArray
          ((fix loop (xs ys : list value) {struct xs} : option (list value) :=
              match xs, ys with
              | x :: xs', y :: ys' =>
                  match mergeValues x y with
                  | Some v => option_map (cons v) (loop xs' ys')
                  | None => None
                  end
              | _, _ => Some []
              end) la lb)
      else None
  | _, _ => if strict_equals a b then Some a else None
  end.

(** [handleParsed] of [ZodIntersection._parse]. *)
Definition handleParsed (parsedLeft parsedRight : ParseReturnType)
  : ParseReturnType :=
  match parsedLeft, parsedRight with
  | INVALID, _ | _, INVALID => INVALID
  | VALID l, VALID r =>
      match mergeValues l r with
      | Some merged => VALID merged
      | None => INVALID
      end
  | DIRTY l, VALID r | VALID l, DIRTY r | DIRTY l, DIRTY r =>
      match mergeValues l r with
      | Some merged => DIRTY merged
      | None => INVALID
      end
  end.

(** [schema._parse(input)] for a synchronous parse.  A [check] handed
    to [z.custom] is run on the raw data; a falsy answer adds a fatal
    issue (a plain issue in older releases: a failure of [safeParse]
    either way), and whatever the [check] throws leaves the parser:
    nothing in [_parse] or [safeParse] catches.  A tuple parses every
    element before it merges the outcomes, and drops the elements beyond
    its items when it has no rest schema. *)
Fixpoint _parse (schema : ZodTypeAny) (input : value) {struct schema}
  : result ParseReturnType :=
  match schema with
  | ZodUndefined =>
      match input with VUndefined => Ok (VALID input) | _ => Ok INVALID end
  | ZodString =>
      match input with VString _ => Ok (VALID input) | _ => Ok INVALID end
  | ZodNumber =>
      match input with VNumber _ => Ok (VALID input) | _ => Ok INVALID end
  | ZodAny => Ok (VALID input)
  | ZodCustom check =>
      passed <- check input ;;
      Ok (if passed then VALID input else INVALID)
  | ZodArray element =>
      match input with
      | VArray data =>
          results <- mapM (_parse element) data ;;
          Ok (mergeArray false results)
      | _ => Ok INVALID
      end
  | ZodTuple items rest =>
      match input with
      | VArray data =>
          if Nat.ltb (List.length data) (List.length items) then Ok INVALID
          else
            let too_big :=
              match rest with
              | None => Nat.ltb (List.length items) (List.length data)
              | Some _ => false
              end in
            results <-
              (fix each (items : list ZodTypeAny) (data : list value)
                 {struct items} : result (list ParseReturnType) :=
                 match items with
                 | item :: items' =>
                     match data with
                     | d :: data' =>
                         r <- _parse item d ;;
                         rs <- each items' data' ;;
                         Ok (r :: rs)
                     | [] => Ok []
                     end
                 | [] =>
                     match rest with
                     | Some r => mapM (_parse r) data
                     | None => Ok []
                     end
                 end) items data ;;
            Ok (mergeArray too_big results)
      | _ => Ok INVALID
      end
  | ZodIntersection lhs rhs =>
      parsedLeft <- _parse lhs input ;;
      parsedRight <- _parse rhs input ;;
      Ok (handleParsed parsedLeft parsedRight)
  end.

(** [{success: true, data}] or [{success: false, error}]; [data] reads
    as [undefined] on a failure. *)
Record SafeParseReturnType : Type := mkSafeParse {
  success : bool;
  data : value
}.

Definition handleResult (r : ParseReturnType) : SafeParseReturnType :=
  match r with
  | VALID v => mkSafeParse true v
  | _ => mkSafeParse false VUndefined
  end.

Definition safeParse (schema : ZodTypeAny) (input : value)
  : result SafeParseReturnType :=
  r <- _parse schema input ;; Ok (handleResult r).

End Zod.

(* ================================================================== *)
(** * The decorator                                                   *)
(* ================================================================== *)

(** The third component of an entry is typed [number]; an entry written
    with two components leaves it [undefined] ([None]). *)
Inductive number : Type :=
| NaN
| Num (n : Z).

(** [isNaN(minArgs)] and [Number(minArgs)]: [undefined] converts to
    [NaN]. *)
Definition isNaN (minArgs : option number) : bool :=
  match minArgs with
  | Some (Num _) => false
  | _ => true
  end.

Definition Number (minArgs : option number) : number :=
  match minArgs with
  | Some n => n
  | None => NaN
  end.

(** [args.length === _minArgs]. *)
Definition length_equals (args : list value) (_minArgs : number) : bool :=
  match _minArgs with
  | Num n => Z.eqb (Z.of_nat (List.length args)) n
  | NaN => false
  end.

(** The [type] tag of a row. *)
Inductive rowType : Type :=
| no_params
| tuple
| array
| custom.

Definition rowType_eqb (a b : rowType) : bool :=
  match a, b with
  | no_params, no_params | tuple, tuple | array, array | custom, custom => true
  | _, _ => false
  end.

(** [...iterable] in an argument list, and the argument array taken by
    [Function.prototype.apply]. *)
Definition spread (v : value) : result (list value) :=
  match v with
  | VArray l => Ok l
  | VString s =>
      Ok (List.map (fun c => VString (String c EmptyString)) (list_ascii_of_string s))
  | _ => Throw (TypeError "object is not iterable")
  end.

Definition CreateListFromArrayLike (v : value) : result (list value) :=
  match v with
  | VArray l => Ok l
  | VUndefined | VNull | VObject _ => Ok []
  | _ => Throw (TypeError "CreateListFromArrayLike called on non-object")
  end.

Section Decorator.

(** Whatever the handlers and the original method read and write. *)
Variable World : Type.

(** A function value: receives [this] and the argument list, may change
    the world, and returns or throws. *)
Definition func : Type := value -> list value -> World -> result value * World.

(** One element of [overloads]: [[schema, handler, minArgs]]. *)
Record OverloadEntry : Type := mkEntry {
  entry_schema : Zod.ZodTypeAny;
  entry_handler : func;
  entry_minArgs : option number
}.

Definition Overloads : Type := list OverloadEntry.

Record OverloadParsedInputRow : Type := mkRow {
  schema : Zod.ZodTypeAny;
  safeParsed : option Zod.SafeParseReturnType;
  handler : func;
  minArgs : number;
  type : rowType
}.

(** The [switch] on [schema._def.typeName]. *)
Definition classify (s : Zod.ZodTypeAny) : rowType :=
  if String.eqb (Zod.typeName s) "ZodUndefined" then no_params
  else if String.eqb (Zod.typeName s) "ZodTuple" then tuple
  else if String.eqb (Zod.typeName s) "ZodArray" then array
  else custom.

(** [data => data.length === 0]. *)
Definition length_is_zero (data : value) : result bool :=
  len <- get_length data ;; Ok (strict_equals len (VNumber 0)).

(** Phase 1: validation and context injection. *)
Definition phase1 (args : list value) (o : OverloadEntry)
  : OverloadParsedInputRow :=
  let type := classify (entry_schema o) in
  let validated :=
    {| schema := entry_schema o;
       safeParsed := None;
       handler := entry_handler o;
       minArgs := if isNaN (entry_minArgs o) then Num 0
                  else Number (entry_minArgs o);
       type := type |} in
  if rowType_eqb type no_params then
    {| schema := Zod.custom length_is_zero;
       safeParsed := safeParsed validated;
       handler := handler validated;
       minArgs := minArgs validated;
       type := type |}
  else
    let _schema := schema validated in
    let _minArgs := minArgs validated in
    {| schema := Zod.and _schema
                   (Zod.custom (fun _ => Ok (length_equals args _minArgs)));
       safeParsed := safeParsed validated;
       handler := handler validated;
       minArgs := minArgs validated;
       type := type |}.

(** [args?.[0]]. *)
Definition first_arg (args : list value) : value :=
  List.nth 0 args VUndefined.

(** Phase 2: run the schema. *)
Definition phase2 (args : list value) (element : OverloadParsedInputRow)
  : result OverloadParsedInputRow :=
  parsed <-
    match type element with
    | no_params => Zod.safeParse (schema element) VUndefined
    | tuple | array => Zod.safeParse (schema element) (VArray args)
    | custom => Zod.safeParse (schema element) (first_arg args)
    end ;;
  Ok {| schema := schema element;
        safeParsed := Some parsed;
        handler := handler element;
        minArgs := minArgs element;
        type := type element |}.

(** [element?.safeParsed.success]; phase 2 has set [safeParsed] on every
    row the filter sees. *)
Definition succeeded (element : OverloadParsedInputRow) : bool :=
  match safeParsed element with
  | Some p => Zod.success p
  | None => false
  end.

Definition parsed_data (element : OverloadParsedInputRow) : value :=
  match safeParsed element with
  | Some p => Zod.data p
  | None => VUndefined
  end.

(** The rows after phases 1 and 2: both [map]s run over every entry
    before the filter looks at any of them. *)
Definition validate (overloads : Overloads) (args : list value)
  : result (list OverloadParsedInputRow) :=
  mapM (phase2 args) (List.map (phase1 args) overloads).

(** [const parsed = overloads.map(..).map(..).filter(..)?.[0]]. *)
Definition parsed (overloads : Overloads) (args : list value)
  : result (option OverloadParsedInputRow) :=
  rows <- validate overloads args ;;
  Ok (List.hd_error (List.filter succeeded rows)).

(** The one call the replacement method ends with. *)
Inductive invocation : Type :=
| Invoke (f : func) (thisArg : value) (argArray : list value).

(** The [switch (type)] over the selected row. *)
Definition invoke_row (target : value) (row : OverloadParsedInputRow)
  : result invocation :=
  match type row with
  | no_params => Ok (Invoke (handler row) target [])
  | tuple =>
      actuals <- spread (parsed_data row) ;;
      Ok (Invoke (handler row) target actuals)
  | array =>
      actuals <- CreateListFromArrayLike (parsed_data row) ;;
      Ok (Invoke (handler row) target actuals)
  | custom => Ok (Invoke (handler row) target [parsed_data row])
  end.

(** Which function the replacement method calls, on which [this] and
    with which arguments. *)
Definition dispatch (overloads : Overloads) (target : value)
  (originalMethod : func) (this : value) (args : list value)
  : result invocation :=
  selected <- parsed overloads args ;;
  match selected with
  | Some row => invoke_row target row
  | None => Ok (Invoke originalMethod this args)
  end.

Definition run (i : invocation) : World -> result value * World :=
  match i with
  | Invoke f thisArg argArray => f thisArg argArray
  end.

(** [Overload(overloads)(target, propertyKey, descriptor)]: the
    function stored in [descriptor.value], [originalMethod] being the
    one found there. *)
Definition Overload (overloads : Overloads) (target : value)
  (originalMethod : func) : func :=
  fun this args w =>
    match dispatch overloads target originalMethod this args with
    | Ok i => run i w
    | Throw e => (Throw e, w)
    end.

End Decorator.

Arguments mkEntry {World}.
Arguments Invoke {World}.

(* ================================================================== *)
(** * The error type                                                  *)
(* ================================================================== *)

(** [Array.prototype.join(' ')] on an array of strings. *)
Fixpoint join (sep : string) (l : list string) : string :=
  match l with
  | [] => ""
  | [s] => s
  | s :: rest => s ++ sep ++ join sep rest
  end.

(** White space and line terminators among the code units below 256. *)
Definition is_white_space (c : ascii) : bool :=
  let n := nat_of_ascii c in
  orb (andb (Nat.leb 9 n) (Nat.leb n 13)) (orb (Nat.eqb n 32) (Nat.eqb n 160)).

Fixpoint trimStart (s : string) : string :=
  match s with
  | String c rest => if is_white_space c then trimStart rest else s
  | EmptyString => EmptyString
  end.

(** Drops the trailing white space: a character stays when it is not
    white space or when something stays after it. *)
Fixpoint trimEnd (s : string) : string :=
  match s with
  | String c rest =>
      match trimEnd rest with
      | EmptyString => if is_white_space c then EmptyString
                       else String c EmptyString
      | kept => String c kept
      end
  | EmptyString => EmptyString
  end.

(** [String.prototype.trim]. *)
Definition trim (s : string) : string := trimEnd (trimStart s).

Section ErrorType.

Variable World : Type.

(** An instance of [NoMatchedHandlerError]: the [message] set by the
    [Error] constructor and the [overloads] field. *)
Record NoMatchedHandlerErrorInstance : Type := mkError {
  message : string;
  overloads : Overloads World
}.

(** [new NoMatchedHandlerError(overloads, ...spaceJoinedStrings)]. *)
Definition NoMatchedHandlerError (overloads : Overloads World)
  (spaceJoinedStrings : list string) : NoMatchedHandlerErrorInstance :=
  {| message := trim (join " " spaceJoinedStrings);
     overloads := overloads |}.

End ErrorType.

(** Modelled from the spec: the reserved constant [Overload.NO_PARAMS],
    which the build under [src/] names in its documentation only; it is
    the schema matching the absence of a value, the one the
    classification recognises as no-arguments. *)
Definition NO_PARAMS : Zod.ZodTypeAny := Zod.ZodUndefined.

(** The count an entry declares, as the dispatcher reads it. *)
Definition declared_count (minArgs : option number) : Z :=
  match minArgs with
  | Some (Num n) => n
  | _ => 0%Z
  end.

(** The value a row of a given kind hands to its schema. *)
Definition validated_input (t : rowType) (args : list value) : value :=
  match t with
  | no_params => VUndefined
  | tuple | array => VArray args
  | custom => first_arg args
  end.

Arguments mkRow {World}.
Arguments schema {World} _.
Arguments safeParsed {World} _.
Arguments handler {World} _.
Arguments minArgs {World} _.
Arguments type {World} _.
Arguments entry_schema {World} _.
Arguments entry_handler {World} _.
Arguments entry_minArgs {World} _.
Arguments phase1 {World}.
Arguments phase2 {World}.
Arguments succeeded {World}.
Arguments parsed_data {World}.
Arguments validate {World}.
Arguments parsed {World}.
Arguments invoke_row {World}.
Arguments dispatch {World}.
Arguments run {World}.
Arguments Overload {World}.
Arguments mkError {World}.
Arguments message {World} _.
Arguments overloads {World} _.
Arguments NoMatchedHandlerError {World}.

(** No [check] inside the schema throws, whatever it is run on. *)
Fixpoint checks_return (s : Zod.ZodTypeAny) : Prop :=
  match s with
  | Zod.ZodCustom check => forall v, exists b, check v = Ok b
  | Zod.ZodArray element => checks_return element
  | Zod.ZodTuple items rest =>
      (fix all (l : list Zod.ZodTypeAny) : Prop :=
         match l with
         | [] => True
         | item :: l' => checks_return item /\ all l'
         end) items /\
      match rest with
      | Some r => checks_return r
      | None => True
      end
  | Zod.ZodIntersection lhs rhs => checks_return lhs /\ checks_return rhs
  | _ => True
  end.

(** How deep the schema constructors nest. *)
Fixpoint depth (s : Zod.ZodTypeAny) : nat :=
  match s with
  | Zod.ZodArray element => S (depth element)
  | Zod.ZodTuple items rest =>
      S (Nat.max
           ((fix deepest (l : list Zod.ZodTypeAny) : nat :=
               match l with
               | [] => 0
               | item :: l' => Nat.max (depth item) (deepest l')
               end) items)
           match rest with
           | Some r => depth r
           | None => 0
           end)
  | Zod.ZodIntersection lhs rhs => S (Nat.max (depth lhs) (depth rhs))
  | _ => 0
  end.

(** The arguments a selected row hands to its handler. *)
Definition actuals_of {World : Type} (row : OverloadParsedInputRow World)
  : list value :=
  match type row with
  | no_params => []
  | tuple | array =>
      match parsed_data row with
      | VArray l => l
      | _ => []
      end
  | custom => [parsed_data row]
  end.

(** What an entry that has arguments asks of a call: as many arguments
    as it declares, and a schema that returns the value it is given (the
    first argument for a single-value entry, the argument list for a
    tuple or an array entry) as valid. *)
Definition accepts {World : Type} (o : OverloadEntry World)
  (args : list value) : Prop :=
  Z.of_nat (List.length args) = declared_count (entry_minArgs o) /\
  Zod._parse (entry_schema o)
    (validated_input (classify (entry_schema o)) args)
  = Ok (Zod.VALID (validated_input (classify (entry_schema o)) args)).


(** The first and the last character of a string. *)
Definition first_char (s : string) : option ascii :=
  match s with
  | String c _ => Some c
  | EmptyString => None
  end.

Fixpoint last_char (s : string) : option ascii :=
  match s with
  | EmptyString => None
  | String c EmptyString => Some c
  | String _ rest => last_char rest
  end.

(** Whether [NaN] occurs in a value, at any depth of its arrays. *)
Fixpoint has_NaN (v : value) : bool :=
  match v with
  | VNaN => true
  | VArray elems =>
      (fix any (l : list value) : bool :=
         match l with
         | [] => false
         | x :: l' => has_NaN x || any l'
         end) elems
  | _ => false
  end.

(** How deep arrays nest in a value. *)
Fixpoint value_depth (v : value) : nat :=
  match v with
  | VArray elems =>
      S ((fix deepest (l : list value) : nat :=
            match l with
            | [] => 0
            | x :: l' => Nat.max (value_depth x) (deepest l')
            end) elems)
  | _ => 0
  end.

(* ================================================================== *)
(** * Sample schemas, handlers and calls                              *)
(* ================================================================== *)

(** [z.tuple([z.string(), z.number()])]. *)
Definition string_number_tuple : Zod.ZodTypeAny :=
  Zod.ZodTuple [Zod.ZodString; Zod.ZodNumber] None.

(** [z.tuple([z.string()]).rest(z.number())]. *)
Definition string_then_numbers : Zod.ZodTypeAny :=
  Zod.ZodTuple [Zod.ZodString] (Some Zod.ZodNumber).

(** A world that is the list of the names of the functions called. *)
Definition Log : Type := list string.

(** A function that writes its name to the log and returns its [this]
    followed by its arguments. *)
Definition recording (name : string) : func Log :=
  fun this args log => (Ok (VArray (this :: args)), log ++ [name]).

(** [() => "none"] and [s => s.length]. *)
Definition returns_none {World : Type} : func World :=
  fun _ _ w => (Ok (VString "none"), w).

Definition returns_length {World : Type} : func World :=
  fun _ args w => (get_length (first_arg args), w).

(** The class prototype a method is decorated on, and an instance the
    method is called on. *)
Definition prototype : value := VObject 0.
Definition instance : value := VObject 1.

(* ================================================================== *)
(** * Facts about completion records and the parsers                  *)
(* ================================================================== *)

Lemma bind_Ok_inv {A B} (c : result A) (k : A -> result B) (b : B) :
  bind c k = Ok b -> exists a, c = Ok a /\ k a = Ok b.
Proof.
  destruct c as [a|e]; simpl; intros E.
  - exists a. split; [reflexivity | exact E].
  - discriminate E.
Qed.

Lemma mapM_Ok_Forall2 {A B} (f : A -> result B) (l : list A) :
  forall ys, mapM f l = Ok ys -> Forall2 (fun x y => f x = Ok y) l ys.
Proof.
  induction l as [|x xs IH]; simpl; intros ys E.
  - injection E as <-. constructor.
  - apply bind_Ok_inv in E. destruct E as [y [Ey E]].
    apply bind_Ok_inv in E. destruct E as [ys' [Eys E]].
    injection E as <-. constructor; [exact Ey | apply IH; exact Eys].
Qed.

Lemma Forall2_mapM_Ok {A B} (f : A -> result B) (l : list A) (ys : list B) :
  Forall2 (fun x y => f x = Ok y) l ys -> mapM f l = Ok ys.
Proof.
  induction 1 as [|x y xs ys' Exy _ IH]; simpl.
  - reflexivity.
  - rewrite Exy. simpl. rewrite IH. reflexivity.
Qed.

(** The first exception met by a [map] is the one that leaves it. *)
Lemma mapM_Throw {A B} (f : A -> result B) (pre post : list A) (x : A)
  (ys : list B) (e : exn) :
  mapM f pre = Ok ys -> f x = Throw e -> mapM f (pre ++ x :: post) = Throw e.
Proof.
  revert ys. induction pre as [|p pre IH]; simpl; intros ys Epre Ex.
  - rewrite Ex. reflexivity.
  - apply bind_Ok_inv in Epre. destruct Epre as [y [Ey E]].
    apply bind_Ok_inv in E. destruct E as [ys' [Eys _]].
    rewrite Ey. simpl. rewrite (IH ys' Eys Ex). reflexivity.
Qed.

(** A merge with an array can only give an array. *)
Lemma mergeValues_array_r (a : value) (lb : list value) (m : value) :
  Zod.mergeValues a (VArray lb) = Some m -> exists l, m = VArray l.
Proof.
  destruct a; simpl; try discriminate.
  destruct (Nat.eqb _ _); [|discriminate].
  match goal with |- option_map VArray ?x = _ -> _ => destruct x as [l|] end;
    simpl; intros E; [|discriminate].
  injection E as <-. exists l. reflexivity.
Qed.

(** An intersection succeeds exactly when both sides are valid and their
    values merge, and then yields the merged value. *)
Lemma handleParsed_success (pl pr : Zod.ParseReturnType) :
  Zod.success (Zod.handleResult (Zod.handleParsed pl pr)) = true <->
  exists d r m, pl = Zod.VALID d /\ pr = Zod.VALID r /\
                Zod.mergeValues d r = Some m.
Proof.
  split.
  - destruct pl as [d|d|], pr as [r|r|]; simpl; try discriminate;
      destruct (Zod.mergeValues d r) as [m|] eqn:E; simpl; try discriminate.
    intros _. exists d, r, m. repeat split. exact E.
  - intros [d [r [m [-> [-> E]]]]]. simpl. rewrite E. reflexivity.
Qed.

Lemma handleParsed_data (d r m : value) :
  Zod.mergeValues d r = Some m ->
  Zod.handleResult (Zod.handleParsed (Zod.VALID d) (Zod.VALID r)) =
  Zod.mkSafeParse true m.
Proof. intros E. simpl. rewrite E. reflexivity. Qed.

(** Parsing a schema intersected with a predicate that ignores its
    input. *)
Lemma safeParse_guarded (s : Zod.ZodTypeAny) (b : bool) (v : value) :
  Zod.safeParse (Zod.and s (Zod.custom (fun _ => Ok b))) v =
  (pl <- Zod._parse s v ;;
   Ok (Zod.handleResult
         (Zod.handleParsed pl (if b then Zod.VALID v else Zod.INVALID)))).
Proof.
  unfold Zod.safeParse, Zod.and, Zod.custom. simpl.
  destruct (Zod._parse s v); reflexivity.
Qed.

(* ================================================================== *)
(** * Facts about the rows                                            *)
(* ================================================================== *)

Section RowFacts.

Context {World : Type}.
Implicit Types (o : OverloadEntry World) (row : OverloadParsedInputRow World).
Implicit Types (args : list value).

Lemma phase1_type args o :
  type (phase1 args o) = classify (entry_schema o).
Proof. unfold phase1. destruct (rowType_eqb _ _); reflexivity. Qed.

Lemma phase1_handler args o :
  handler (phase1 args o) = entry_handler o.
Proof. unfold phase1. destruct (rowType_eqb _ _); reflexivity. Qed.

Lemma phase1_minArgs args o :
  minArgs (phase1 args o) = Num (declared_count (entry_minArgs o)).
Proof.
  unfold phase1.
  destruct (rowType_eqb _ _); simpl;
    destruct (entry_minArgs o) as [[|n]|]; reflexivity.
Qed.

Lemma phase1_schema_no_params args o :
  classify (entry_schema o) = no_params ->
  schema (phase1 args o) = Zod.custom length_is_zero.
Proof. unfold phase1. intros ->. reflexivity. Qed.

Lemma phase1_schema_guarded args o :
  classify (entry_schema o) <> no_params ->
  schema (phase1 args o) =
  Zod.and (entry_schema o)
    (Zod.custom
       (fun _ => Ok (length_equals args
                       (Num (declared_count (entry_minArgs o)))))).
Proof.
  unfold phase1. intros Hc.
  destruct (classify (entry_schema o)); try congruence; simpl;
    destruct (entry_minArgs o) as [[|n]|]; reflexivity.
Qed.

(** Phase 2 fills in [safeParsed] and touches nothing else. *)
Lemma phase2_Ok args (element row : OverloadParsedInputRow World) :
  phase2 args element = Ok row ->
  exists p,
    Zod.safeParse (schema element) (validated_input (type element) args)
      = Ok p /\
    row = mkRow (schema element) (Some p) (handler element)
            (minArgs element) (type element).
Proof.
  unfold phase2. intros E.
  apply bind_Ok_inv in E. destruct E as [p [Ep E]].
  injection E as <-. exists p. split; [|reflexivity].
  destruct (type element); exact Ep.
Qed.

(** The no-arguments predicate is run on [undefined], whose [length]
    cannot be read. *)
Lemma phase2_no_params_throws args o :
  classify (entry_schema o) = no_params ->
  phase2 args (phase1 args o) =
  Throw (TypeError "Cannot read properties of undefined (reading 'length')").
Proof.
  intros Hc. unfold phase2.
  rewrite phase1_type, Hc, (phase1_schema_no_params _ _ Hc). reflexivity.
Qed.

(** When a row of an entry with arguments succeeds, and what it then
    carries. *)
Lemma guarded_row_success args o row :
  classify (entry_schema o) <> no_params ->
  phase2 args (phase1 args o) = Ok row ->
  (succeeded row = true <->
   Z.of_nat (List.length args) = declared_count (entry_minArgs o) /\
   exists d,
     Zod._parse (entry_schema o)
       (validated_input (classify (entry_schema o)) args) = Ok (Zod.VALID d) /\
     Zod.mergeValues d (validated_input (classify (entry_schema o)) args)
       = Some (parsed_data row)).
Proof.
  intros Hc E. apply phase2_Ok in E. destruct E as [p [Ep ->]].
  rewrite phase1_type, (phase1_schema_guarded _ _ Hc) in Ep.
  rewrite safeParse_guarded in Ep.
  apply bind_Ok_inv in Ep. destruct Ep as [pl [Epl Ep]].
  injection Ep as <-.
  unfold succeeded, parsed_data. simpl safeParsed. cbv iota beta.
  rewrite handleParsed_success. unfold length_equals. split.
  - intros [d [r [m [-> [Er Em]]]]].
    destruct (Z.eqb _ _) eqn:Elen; [|discriminate Er].
    injection Er as <-. apply Z.eqb_eq in Elen. split; [exact Elen|].
    exists d. split; [exact Epl|].
    rewrite (handleParsed_data _ _ _ Em). simpl. exact Em.
  - intros [Elen [d [Ed Em]]].
    rewrite Epl in Ed. injection Ed as ->.
    apply Z.eqb_eq in Elen. rewrite Elen.
    eexists _, _, _. repeat split. exact Em.
Qed.

Lemma validate_Forall2 (ovs : Overloads World) args
  (rows : list (OverloadParsedInputRow World)) :
  validate ovs args = Ok rows ->
  Forall2 (fun o row => phase2 args (phase1 args o) = Ok row) ovs rows.
Proof.
  unfold validate. intros E. apply mapM_Ok_Forall2 in E.
  remember (List.map (phase1 args) ovs) as l eqn:El.
  revert ovs El. induction E as [|x y xs ys Exy _ IH]; intros ovs El.
  - destruct ovs; [constructor | discriminate El].
  - destruct ovs as [|o ovs']; [discriminate El|].
    simpl in El. injection El as -> ->.
    constructor; [exact Exy | apply IH; reflexivity].
Qed.

Lemma validate_nth (ovs : Overloads World) args
  (rows : list (OverloadParsedInputRow World)) (i : nat) row :
  validate ovs args = Ok rows ->
  nth_error rows i = Some row ->
  exists o, nth_error ovs i = Some o /\
            phase2 args (phase1 args o) = Ok row.
Proof.
  intros E. apply validate_Forall2 in E.
  revert i. induction E as [|o r ovs' rows' Eor _ IH]; intros i Ei.
  - destruct i; discriminate Ei.
  - destruct i as [|i]; simpl in *.
    + injection Ei as <-. exists o. split; [reflexivity | exact Eor].
    + apply IH. exact Ei.
Qed.

(** A row that came out of both phases keeps its entry's handler. *)
Lemma validated_row_handler args o row :
  phase2 args (phase1 args o) = Ok row -> handler row = entry_handler o.
Proof.
  intros E. apply phase2_Ok in E. destruct E as [p [_ ->]].
  simpl. apply phase1_handler.
Qed.

Lemma validated_row_type args o row :
  phase2 args (phase1 args o) = Ok row -> type row = classify (entry_schema o).
Proof.
  intros E. apply phase2_Ok in E. destruct E as [p [_ ->]].
  simpl. apply phase1_type.
Qed.

End RowFacts.

(* ================================================================== *)
(** * Facts about the selection                                       *)
(* ================================================================== *)

Section SelectionFacts.

Context {World : Type}.
Implicit Types (o : OverloadEntry World) (row : OverloadParsedInputRow World).
Implicit Types (rows : list (OverloadParsedInputRow World)).
Implicit Types (args : list value).

(** [filter(..)[0]] is the first row that succeeded. *)
Lemma first_success_is_head rows (i : nat) row :
  nth_error rows i = Some row ->
  succeeded row = true ->
  (forall k rk, k < i -> nth_error rows k = Some rk -> succeeded rk = false) ->
  List.hd_error (List.filter succeeded rows) = Some row.
Proof.
  revert i. induction rows as [|r rows IH]; intros i Ei Hs Hbefore.
  - destruct i; discriminate Ei.
  - destruct i as [|i]; simpl in Ei.
    + injection Ei as ->. simpl. rewrite Hs. reflexivity.
    + simpl. rewrite (Hbefore 0 r (Nat.lt_0_succ i) eq_refl).
      apply (IH i Ei Hs). intros k rk Hk Ek.
      apply (Hbefore (S k) rk); [lia | exact Ek].
Qed.

Lemma no_success_no_head rows :
  Forall (fun row => succeeded row = false) rows ->
  List.hd_error (List.filter succeeded rows) = None.
Proof.
  induction 1 as [|r rows Hr _ IH]; simpl.
  - reflexivity.
  - rewrite Hr. exact IH.
Qed.

Lemma head_of_filter_In rows row :
  List.hd_error (List.filter succeeded rows) = Some row ->
  In row rows /\ succeeded row = true.
Proof.
  intros E. apply filter_In.
  destruct (List.filter succeeded rows) as [|r l]; [discriminate E|].
  injection E as ->. left. reflexivity.
Qed.

(** The [switch] over a row that succeeded always reaches its call:
    what a tuple or an array row carries can be spread. *)
Lemma invoke_validated_row args o row (target : value) :
  phase2 args (phase1 args o) = Ok row ->
  succeeded row = true ->
  invoke_row target row = Ok (Invoke (entry_handler o) target (actuals_of row)).
Proof.
  intros E Hs.
  pose proof (validated_row_handler _ _ _ E) as Hh.
  pose proof (validated_row_type _ _ _ E) as Ht.
  unfold invoke_row, actuals_of. rewrite Hh.
  destruct (type row) eqn:Etype; try reflexivity.
  - assert (Hc : classify (entry_schema o) <> no_params) by congruence.
    apply (guarded_row_success _ _ _ Hc E) in Hs.
    destruct Hs as [_ [d [_ Em]]]. rewrite <- Ht in Em. simpl in Em.
    apply mergeValues_array_r in Em. destruct Em as [l ->]. reflexivity.
  - assert (Hc : classify (entry_schema o) <> no_params) by congruence.
    apply (guarded_row_success _ _ _ Hc E) in Hs.
    destruct Hs as [_ [d [_ Em]]]. rewrite <- Ht in Em. simpl in Em.
    apply mergeValues_array_r in Em. destruct Em as [l ->]. reflexivity.
Qed.

(** An entry classified no-arguments makes the validation of every
    call end in an exception. *)
Lemma no_params_entry_always_throws (ovs : Overloads World) o args :
  In o ovs ->
  classify (entry_schema o) = no_params ->
  exists e, validate ovs args = Throw e.
Proof.
  unfold validate. induction ovs as [|o' ovs IH]; intros Hin Hc.
  - destruct Hin.
  - simpl. destruct (phase2 args (phase1 args o')) as [r|e] eqn:E.
    + destruct Hin as [->|Hin].
      * rewrite (phase2_no_params_throws _ _ Hc) in E. discriminate E.
      * destruct (IH Hin Hc) as [e He]. exists e. simpl. rewrite He.
        reflexivity.
    + exists e. reflexivity.
Qed.

(** The replacement method of a one-entry list. *)
Lemma dispatch_single o (target : value) (originalMethod : func World)
  (this : value) args :
  dispatch [o] target originalMethod this args =
  match phase2 args (phase1 args o) with
  | Ok row => if succeeded row then invoke_row target row
              else Ok (Invoke originalMethod this args)
  | Throw e => Throw e
  end.
Proof.
  unfold dispatch, parsed, validate. simpl.
  destruct (phase2 args (phase1 args o)) as [row|e]; simpl; [|reflexivity].
  destruct (succeeded row); reflexivity.
Qed.

(** A one-entry list whose entry has arguments sends a call with another
    argument count to the original method. *)
Lemma dispatch_single_wrong_count o (target : value)
  (originalMethod : func World) (this : value) args (f : func World)
  (actuals : list value) :
  classify (entry_schema o) <> no_params ->
  dispatch [o] target originalMethod this args = Ok (Invoke f target actuals) ->
  this <> target ->
  Z.of_nat (List.length args) = declared_count (entry_minArgs o).
Proof.
  intros Hc E Hneq. rewrite dispatch_single in E.
  destruct (phase2 args (phase1 args o)) as [row|e] eqn:Erow;
    [|discriminate E].
  destruct (succeeded row) eqn:Hs.
  - apply (guarded_row_success _ _ _ Hc Erow) in Hs. apply Hs.
  - injection E as _ Ethis _. contradiction.
Qed.

End SelectionFacts.

(* ================================================================== *)
(** * Where validation returns                                        *)
(* ================================================================== *)

Lemma mapM_returns {A B} (f : A -> result B) (l : list A) :
  (forall x, exists y, f x = Ok y) -> exists ys, mapM f l = Ok ys.
Proof.
  intros Hf. induction l as [|x xs [ys IH]]; simpl.
  - eexists. reflexivity.
  - destruct (Hf x) as [y Ey]. rewrite Ey, IH. simpl. eexists. reflexivity.
Qed.

(** A schema none of whose checks throws is parsed to an outcome. *)
Lemma parse_returns_below (n : nat) :
  forall s, depth s < n -> checks_return s ->
  forall v, exists r, Zod._parse s v = Ok r.
Proof.
  induction n as [|n IH]; intros s Hd Hs v; [lia|].
  destruct s as [ | | | | items rest | element | check | lhs rhs].
  - destruct v; eexists; reflexivity.
  - destruct v; eexists; reflexivity.
  - destruct v; eexists; reflexivity.
  - eexists; reflexivity.
  - destruct v as [ | | | | | | | data]; try (eexists; reflexivity).
    simpl. destruct (Nat.ltb _ _); [eexists; reflexivity|].
    simpl in Hd, Hs. destruct Hs as [Hitems Hrest].
    match goal with
    | |- exists r, bind (?each items data) _ = _ =>
        assert (Heach : exists rs, each items data = Ok rs)
    end.
    { assert (Hdrest : forall r, rest = Some r -> depth r < n).
      { intros r ->. lia. }
      assert (Hditems :
                (fix deepest (l : list Zod.ZodTypeAny) : nat :=
                   match l with
                   | [] => 0
                   | item :: l' => Nat.max (depth item) (deepest l')
                   end) items < n) by lia.
      clear Hd. revert data.
      induction items as [|item items IHitems]; intros data.
      - destruct rest as [r|]; [|eexists; reflexivity].
        apply mapM_returns. intros x.
        apply (IH r (Hdrest r eq_refl) Hrest).
      - destruct data as [|d data]; [eexists; reflexivity|].
        destruct Hitems as [Hitem Hitems].
        destruct (IH item ltac:(lia) Hitem d) as [r Er]. rewrite Er. simpl.
        destruct (IHitems Hitems ltac:(lia) data) as [rs Ers].
        rewrite Ers. simpl. eexists. reflexivity. }
    destruct Heach as [rs Ers]. rewrite Ers. simpl. eexists. reflexivity.
  - destruct v as [ | | | | | | | data]; try (eexists; reflexivity).
    simpl. simpl in Hd, Hs.
    destruct (mapM_returns (Zod._parse element) data) as [rs Ers].
    { intros x. apply (IH element ltac:(lia) Hs). }
    rewrite Ers. simpl. eexists. reflexivity.
  - simpl in Hs. destruct (Hs v) as [b Eb]. simpl. rewrite Eb. simpl.
    eexists. reflexivity.
  - simpl in Hd, Hs. destruct Hs as [Hl Hr]. simpl.
    destruct (IH lhs ltac:(lia) Hl v) as [pl Epl].
    destruct (IH rhs ltac:(lia) Hr v) as [pr Epr].
    rewrite Epl, Epr. simpl. eexists. reflexivity.
Qed.

Lemma parse_returns (s : Zod.ZodTypeAny) (v : value) :
  checks_return s -> exists r, Zod._parse s v = Ok r.
Proof.
  intros Hs. apply (parse_returns_below (S (depth s))); [lia | exact Hs].
Qed.

(** Validating an entry that has arguments returns an outcome when none
    of its schema's checks throws. *)
Lemma entry_with_arguments_validation_returns {World : Type}
  (o : OverloadEntry World) (args : list value) :
  classify (entry_schema o) <> no_params ->
  checks_return (entry_schema o) ->
  exists row, phase2 args (phase1 args o) = Ok row.
Proof.
  intros Hc Hs. unfold phase2.
  rewrite phase1_type, (phase1_schema_guarded _ _ Hc).
  assert (Hp : forall v, exists p,
             Zod.safeParse
               (Zod.and (entry_schema o)
                  (Zod.custom
                     (fun _ => Ok (length_equals args
                                     (Num (declared_count (entry_minArgs o)))))))
               v = Ok p).
  { intros v. rewrite safeParse_guarded.
    destruct (parse_returns (entry_schema o) v Hs) as [r Er].
    rewrite Er. simpl. eexists. reflexivity. }
  destruct (classify (entry_schema o)); try congruence.
  - destruct (Hp (VArray args)) as [p Ep]. rewrite Ep. simpl.
    eexists. reflexivity.
  - destruct (Hp (VArray args)) as [p Ep]. rewrite Ep. simpl.
    eexists. reflexivity.
  - destruct (Hp (first_arg args)) as [p Ep]. rewrite Ep. simpl.
    eexists. reflexivity.
Qed.

(** The validation of a whole list returns its rows when no entry is
    classified no-arguments and no check throws. *)
Lemma validate_returns {World : Type} (ovs : Overloads World)
  (args : list value) :
  Forall (fun o => classify (entry_schema o) <> no_params /\
                   checks_return (entry_schema o)) ovs ->
  exists rows, validate ovs args = Ok rows.
Proof.
  unfold validate. induction 1 as [|o ovs [Hc Hs] _ [rows IH]]; simpl.
  - eexists. reflexivity.
  - destruct (entry_with_arguments_validation_returns o args Hc Hs)
      as [row Erow].
    rewrite Erow, IH. simpl. eexists. reflexivity.
Qed.

(* ================================================================== *)
(** * What a merge returns                                            *)
(* ================================================================== *)

Lemma strict_equals_eq (a b : value) : strict_equals a b = true -> a = b.
Proof.
  destruct a, b; simpl; try discriminate; intros E.
  - reflexivity.
  - reflexivity.
  - apply Bool.eqb_prop in E. congruence.
  - apply Z.eqb_eq in E. congruence.
  - apply String.eqb_eq in E. congruence.
  - apply Nat.eqb_eq in E. congruence.
Qed.

Lemma mergeValues_not_array (a b : value) :
  (forall l, a <> VArray l) ->
  Zod.mergeValues a b = if strict_equals a b then Some a else None.
Proof.
  intros Hna. destruct a; try (destruct b; reflexivity).
  exfalso. apply (Hna elems). reflexivity.
Qed.

(** Two values merge only when they are the same value, and the merge is
    that value. *)
Lemma mergeValues_same_below (n : nat) :
  forall a, value_depth a < n ->
  forall b m, Zod.mergeValues a b = Some m -> a = b /\ m = b.
Proof.
  induction n as [|n IH]; intros a Hd b m E; [lia|].
  destruct a as [ | | | | | | | la];
    try (rewrite mergeValues_not_array in E by discriminate;
         destruct (strict_equals _ b) eqn:Ec; [|discriminate E];
         apply strict_equals_eq in Ec; injection E as <-;
         split; exact Ec).
  destruct b as [ | | | | | | | lb]; try discriminate E.
  simpl in E, Hd.
  destruct (Nat.eqb (List.length la) (List.length lb)) eqn:Elen;
    [|discriminate E].
  apply Nat.eqb_eq in Elen.
  match type of E with
  | option_map VArray (?loop la lb) = _ =>
      assert (Hloop : forall l, loop la lb = Some l -> la = lb /\ l = lb)
  end.
  { assert (Hdl : (fix deepest (l : list value) : nat :=
                     match l with
                     | [] => 0
                     | x :: l' => Nat.max (value_depth x) (deepest l')
                     end) la < n) by lia.
    clear E Hd. revert lb Elen.
    induction la as [|x xs IHxs]; intros lb Elen l El.
    - destruct lb; [|discriminate Elen]. injection El as <-.
      split; reflexivity.
    - destruct lb as [|y ys]; [discriminate Elen|].
      destruct (Zod.mergeValues x y) as [v|] eqn:Exy; [|discriminate El].
      destruct (IH x ltac:(lia) y v Exy) as [-> ->].
      match type of El with
      | option_map (cons y) ?rec = _ => destruct rec as [l'|] eqn:Erec
      end; [|discriminate El].
      injection El as <-. injection Elen as Elen.
      destruct (IHxs ltac:(lia) ys Elen l' Erec) as [-> ->].
      split; reflexivity. }
  match type of E with
  | option_map VArray ?x = _ => destruct x as [l|] eqn:El
  end; [|discriminate E].
  injection E as <-. destruct (Hloop l eq_refl) as [-> ->].
  split; reflexivity.
Qed.

Lemma mergeValues_same (a b m : value) :
  Zod.mergeValues a b = Some m -> a = b /\ m = b.
Proof. apply (mergeValues_same_below (S (value_depth a))). lia. Qed.

(** A value merges with itself exactly when it holds no [NaN]. *)
Lemma mergeValues_refl_below (n : nat) :
  forall a, value_depth a < n ->
  (Zod.mergeValues a a = Some a <-> has_NaN a = false).
Proof.
  induction n as [|n IH]; intros a Hd; [lia|].
  destruct a as [ | | | | | | | la];
    try (rewrite mergeValues_not_array by discriminate; simpl;
         rewrite ?Bool.eqb_reflx, ?Z.eqb_refl, ?String.eqb_refl,
           ?Nat.eqb_refl;
         split; intros E; try reflexivity; discriminate E).
  simpl in Hd. simpl. rewrite Nat.eqb_refl.
  match goal with
  | |- option_map VArray (?loop la la) = _ <-> ?any la = false =>
      assert (Hloop : loop la la = Some la <-> any la = false)
  end.
  { assert (Hdl : (fix deepest (l : list value) : nat :=
                     match l with
                     | [] => 0
                     | x :: l' => Nat.max (value_depth x) (deepest l')
                     end) la < n) by lia.
    clear Hd. induction la as [|x xs IHxs]; [split; reflexivity|].
    specialize (IH x ltac:(lia)). specialize (IHxs ltac:(lia)).
    destruct (Zod.mergeValues x x) as [v|] eqn:Ex.
    - destruct (mergeValues_same_below (S (value_depth x)) x
                  ltac:(lia) x v Ex) as [_ ->].
      rewrite (proj1 IH eq_refl). simpl.
      match goal with
      | |- option_map (cons x) ?rec = _ <-> _ => destruct rec as [l|] eqn:Er
      end; simpl.
      + split.
        * intros E. apply IHxs. congruence.
        * intros E. apply IHxs in E. congruence.
      + split; [discriminate|].
        intros E. apply IHxs in E. discriminate E.
    - split; [discriminate|]. intros E.
      apply Bool.orb_false_iff in E. destruct E as [E _].
      apply IH in E. discriminate E. }
  split.
  - intros E. apply Hloop.
    match type of E with
    | option_map VArray ?x = _ => destruct x as [l|]
    end; simpl in E; congruence.
  - intros E. apply Hloop in E. rewrite E. reflexivity.
Qed.

Lemma mergeValues_refl (a : value) :
  Zod.mergeValues a a = Some a <-> has_NaN a = false.
Proof. apply (mergeValues_refl_below (S (value_depth a))). lia. Qed.

(** A row that succeeded belongs to an entry that accepts the call, was
    given a value without [NaN], and carries that value. *)
Lemma succeeded_row_accepted {World : Type} (o : OverloadEntry World)
  (args : list value) (row : OverloadParsedInputRow World) :
  classify (entry_schema o) <> no_params ->
  phase2 args (phase1 args o) = Ok row ->
  succeeded row = true ->
  accepts o args /\
  has_NaN (validated_input (classify (entry_schema o)) args) = false /\
  parsed_data row = validated_input (classify (entry_schema o)) args.
Proof.
  intros Hc E Hs.
  apply (guarded_row_success _ _ _ Hc E) in Hs.
  destruct Hs as [Hlen [d [Ed Em]]].
  destruct (mergeValues_same _ _ _ Em) as [-> Hdata].
  split; [split; [exact Hlen | exact Ed]|].
  split; [|exact Hdata].
  apply mergeValues_refl. rewrite Em, Hdata. reflexivity.
Qed.



(* ================================================================== *)
(** * Properties of the dispatcher                                    *)
(* ================================================================== *)

(** C2: every entry whose schema is not classified no-arguments, tuple
    and array entries included, has its schema intersected with the
    predicate that the call's argument count equals the entry's
    normalised minimum-argument-count ([Number(minArgs)], or 0 when that
    is not a number); so such an entry can only match a call with exactly
    that many arguments. *)
Theorem argument_count_guard_on_every_entry_with_arguments :
  forall (World : Type) (o : OverloadEntry World) (args : list value),
    classify (entry_schema o) <> no_params ->
    minArgs (phase1 args o) = Num (declared_count (entry_minArgs o)) /\
    schema (phase1 args o) =
      Zod.and (entry_schema o)
        (Zod.custom
           (fun _ => Ok (length_equals args
                           (Num (declared_count (entry_minArgs o)))))) /\
    (forall row,
        phase2 args (phase1 args o) = Ok row ->
        succeeded row = true ->
        Z.of_nat (List.length args) = declared_count (entry_minArgs o)).
Proof.
  intros World o args Hc. split; [apply phase1_minArgs|]. split.
  - apply phase1_schema_guarded. exact Hc.
  - intros row E Hs.
    apply (guarded_row_success _ _ _ Hc E) in Hs. apply Hs.
Qed.

Lemma argument_count_guard_witness :
  exists row,
    phase2 [VString "a"; VNumber 1]
      (phase1 [VString "a"; VNumber 1]
         (mkEntry string_number_tuple (recording "T") (Some (Num 2)))) = Ok row /\
    succeeded row = true /\
    Z.of_nat (List.length [VString "a"; VNumber 1]) = 2%Z.
Proof.
  eexists. split; [vm_compute; reflexivity|]. split; [reflexivity|].
  refine (proj2 (proj2 (argument_count_guard_on_every_entry_with_arguments
                          Log
                          (mkEntry string_number_tuple (recording "T")
                             (Some (Num 2)))
                          [VString "a"; VNumber 1] _)) _ _ _).
  - vm_compute. discriminate.
  - vm_compute. reflexivity.
  - reflexivity.
Defined.




(** C3, on the code: with the entries [[(any, H1, 1), (string, H2, 1),
    (NO_PARAMS, H3)]] and the call [("x")], the validations of the first
    two entries succeed, yet the first successful entry's handler is not
    invoked: validating the third entry throws before the filter and the
    call ends in that exception, the world untouched. *)
Theorem first_match_is_lost_to_a_no_arguments_entry :
  forall (World : Type) (H1 H2 H3 originalMethod : func World)
         (target this : value) (w : World),
    (exists r1,
        phase2 [VString "x"]
          (phase1 [VString "x"] (mkEntry Zod.ZodAny H1 (Some (Num 1))))
        = Ok r1 /\ succeeded r1 = true) /\
    (exists r2,
        phase2 [VString "x"]
          (phase1 [VString "x"] (mkEntry Zod.ZodString H2 (Some (Num 1))))
        = Ok r2 /\ succeeded r2 = true) /\
    Overload
      [mkEntry Zod.ZodAny H1 (Some (Num 1));
       mkEntry Zod.ZodString H2 (Some (Num 1));
       mkEntry NO_PARAMS H3 None]
      target originalMethod this [VString "x"] w
    = (Throw (TypeError "Cannot read properties of undefined (reading 'length')"),
       w).
Proof.
  intros. split; [|split].
  - eexists. split; reflexivity.
  - eexists. split; reflexivity.
  - reflexivity.
Qed.

(** When both validation phases return their rows and two or more of
    them succeeded, the entry selected is the first successful one in
    declaration order: the replacement method does exactly one call,
    that of this entry's handler, so no later successful entry's handler
    runs. *)
Theorem first_successful_entry_is_selected :
  forall (World : Type) (ovs : Overloads World) (target : value)
         (originalMethod : func World) (this : value) (args : list value)
         (rows : list (OverloadParsedInputRow World)) (i j : nat)
         (ri rj : OverloadParsedInputRow World),
    validate ovs args = Ok rows ->
    nth_error rows i = Some ri -> succeeded ri = true ->
    nth_error rows j = Some rj -> succeeded rj = true ->
    i < j ->
    (forall k rk, k < i -> nth_error rows k = Some rk -> succeeded rk = false) ->
    exists oi,
      nth_error ovs i = Some oi /\
      parsed ovs args = Ok (Some ri) /\
      dispatch ovs target originalMethod this args =
        Ok (Invoke (entry_handler oi) target (actuals_of ri)) /\
      forall w,
        Overload ovs target originalMethod this args w =
        entry_handler oi target (actuals_of ri) w.
Proof.
  intros World ovs target originalMethod this args rows i j ri rj
    Hv Ei Hsi _ _ _ Hfirst.
  destruct (validate_nth _ _ _ _ _ Hv Ei) as [oi [Eoi Erow]].
  exists oi. split; [exact Eoi|].
  assert (Hp : parsed ovs args = Ok (Some ri)).
  { unfold parsed. rewrite Hv. simpl.
    rewrite (first_success_is_head _ _ _ Ei Hsi Hfirst). reflexivity. }
  split; [exact Hp|].
  assert (Hd : dispatch ovs target originalMethod this args =
               Ok (Invoke (entry_handler oi) target (actuals_of ri))).
  { unfold dispatch. rewrite Hp. simpl.
    apply (invoke_validated_row _ _ _ _ Erow Hsi). }
  split; [exact Hd|].
  intros w. unfold Overload. rewrite Hd. reflexivity.
Qed.

Lemma first_successful_entry_witness :
  Overload
    [mkEntry Zod.ZodNumber (recording "H0") (Some (Num 1));
     mkEntry Zod.ZodAny (recording "H1") (Some (Num 1));
     mkEntry Zod.ZodString (recording "H2") (Some (Num 1))]
    prototype (recording "original") instance [VString "x"] []
  = (Ok (VArray [prototype; VString "x"]), ["H1"]).
Proof.
  destruct (first_successful_entry_is_selected Log
              [mkEntry Zod.ZodNumber (recording "H0") (Some (Num 1));
               mkEntry Zod.ZodAny (recording "H1") (Some (Num 1));
               mkEntry Zod.ZodString (recording "H2") (Some (Num 1))]
              prototype (recording "original") instance [VString "x"]
              _ 1 2 _ _
              eq_refl eq_refl eq_refl eq_refl eq_refl (le_n 2))
    as [oi [Eoi [_ [_ Hrun]]]].
  - intros k rk Hk Ek.
    destruct k as [|k]; [|exfalso; lia].
    injection Ek as <-. reflexivity.
  - injection Eoi as <-. rewrite Hrun. reflexivity.
Defined.

(** C4, on the code: with the two entries written as schema and
    handler, without a count, the call [("x")] matches neither of them
    (each is guarded by [args.length === 0]) and the original method is
    the one called, not H1. *)
Lemma uncounted_entries_do_not_match_one_argument :
  dispatch
    [mkEntry Zod.ZodAny (recording "H1") None;
     mkEntry Zod.ZodString (recording "H2") None]
    prototype (recording "original") instance [VString "x"]
  = Ok (Invoke (recording "original") instance [VString "x"]) /\
  Overload
    [mkEntry Zod.ZodAny (recording "H1") None;
     mkEntry Zod.ZodString (recording "H2") None]
    prototype (recording "original") instance [VString "x"] []
  = (Ok (VArray [instance; VString "x"]), ["original"]).
Proof. split; reflexivity. Qed.

(** With entries [(accepts any single value, H1, 1), (accepts string,
    H2, 1)] in that order, each declaring the count 1, the call [("x")]
    invokes H1 with ["x"], not H2. *)
Theorem earlier_entry_wins_on_one_string :
  forall (World : Type) (H1 H2 originalMethod : func World)
         (target this : value) (w : World),
    dispatch
      [mkEntry Zod.ZodAny H1 (Some (Num 1));
       mkEntry Zod.ZodString H2 (Some (Num 1))]
      target originalMethod this [VString "x"]
    = Ok (Invoke H1 target [VString "x"]) /\
    Overload
      [mkEntry Zod.ZodAny H1 (Some (Num 1));
       mkEntry Zod.ZodString H2 (Some (Num 1))]
      target originalMethod this [VString "x"] w
    = H1 target [VString "x"] w.
Proof. intros. split; reflexivity. Qed.

(** C5, on the code: whatever count the variadic entry declares, it
    does not match both [("r", 1, 2, 3)] and [("r")]; and the tuple entry
    written without a count does not match [("a", 1)]. *)
Lemma no_count_serves_both_variadic_calls :
  (forall m : option number,
      ~ (dispatch [mkEntry string_then_numbers (recording "V") m]
           prototype (recording "original") instance
           [VString "r"; VNumber 1; VNumber 2; VNumber 3]
         = Ok (Invoke (recording "V") prototype
                 [VString "r"; VNumber 1; VNumber 2; VNumber 3]) /\
         dispatch [mkEntry string_then_numbers (recording "V") m]
           prototype (recording "original") instance [VString "r"]
         = Ok (Invoke (recording "V") prototype [VString "r"]))) /\
  Overload [mkEntry string_number_tuple (recording "T") None]
    prototype (recording "original") instance [VString "a"; VNumber 1] []
  = (Ok (VArray [instance; VString "a"; VNumber 1]), ["original"]).
Proof.
  split; [|reflexivity].
  intros m [E4 E1].
  apply dispatch_single_wrong_count in E4;
    [|vm_compute; discriminate | discriminate].
  apply dispatch_single_wrong_count in E1;
    [|vm_compute; discriminate | discriminate].
  simpl in E4, E1. rewrite <- E4 in E1. discriminate E1.
Qed.

(** The fixed-tuple schema [[string, number]] declared with
    the count 2 matches the call [("a", 1)], its handler receiving
    ["a"] and [1] spread, while the call [("a", 1, 2)] does not match it
    and falls through to the original method; the variadic schema of one
    string followed by numbers matches [("r", 1, 2, 3)] when declared
    with the count 4, its handler receiving all four values spread, and
    matches [("r")] alone when declared with the count 1. *)
Theorem tuple_and_variadic_entries_match_their_declared_count :
  forall (World : Type) (H originalMethod : func World) (target this : value),
    dispatch [mkEntry string_number_tuple H (Some (Num 2))]
      target originalMethod this [VString "a"; VNumber 1]
    = Ok (Invoke H target [VString "a"; VNumber 1]) /\
    dispatch [mkEntry string_number_tuple H (Some (Num 2))]
      target originalMethod this [VString "a"; VNumber 1; VNumber 2]
    = Ok (Invoke originalMethod this [VString "a"; VNumber 1; VNumber 2]) /\
    dispatch [mkEntry string_then_numbers H (Some (Num 4))]
      target originalMethod this
      [VString "r"; VNumber 1; VNumber 2; VNumber 3]
    = Ok (Invoke H target [VString "r"; VNumber 1; VNumber 2; VNumber 3]) /\
    dispatch [mkEntry string_then_numbers H (Some (Num 1))]
      target originalMethod this [VString "r"]
    = Ok (Invoke H target [VString "r"]).
Proof. intros. repeat split; reflexivity. Qed.

(** C6, on the code: with the entries [[(NO_PARAMS, () => "none"),
    (string schema, s => s.length)]], the call with no arguments does not
    return ["none"]: the no-arguments predicate is run on [undefined] and
    reading its [length] throws. *)
Theorem no_arguments_call_throws :
  forall (World : Type) (originalMethod : func World) (target this : value)
         (w : World),
    Overload
      [mkEntry NO_PARAMS returns_none None;
       mkEntry Zod.ZodString returns_length None]
      target originalMethod this [] w
    = (Throw (TypeError "Cannot read properties of undefined (reading 'length')"),
       w).
Proof. intros. reflexivity. Qed.

(** C7, on the code: validating an entry classified no-arguments throws,
    whatever the call's arguments, and the exception leaves the
    replacement method. *)
Theorem no_arguments_validation_throws :
  forall (World : Type) (h originalMethod : func World) (m : option number)
         (target this : value) (args : list value) (w : World),
    phase2 args (phase1 args (mkEntry NO_PARAMS h m))
    = Throw (TypeError "Cannot read properties of undefined (reading 'length')")
    /\
    Overload [mkEntry NO_PARAMS h m] target originalMethod this args w
    = (Throw (TypeError "Cannot read properties of undefined (reading 'length')"),
       w).
Proof. intros. split; reflexivity. Qed.

(** C8, on the code: with the one entry [(NO_PARAMS, h)] and the call
    [("x")], no entry's validation succeeds, yet the original method is
    not invoked: the dispatcher throws a [TypeError] of its own and
    leaves the world untouched. *)
Theorem fallback_is_not_reached_past_a_no_arguments_entry :
  forall (World : Type) (h originalMethod : func World)
         (target this : value) (w : World),
    ~ (exists row,
          phase2 [VString "x"] (phase1 [VString "x"] (mkEntry NO_PARAMS h None))
          = Ok row /\ succeeded row = true) /\
    Overload [mkEntry NO_PARAMS h None] target originalMethod this
      [VString "x"] w
    = (Throw (TypeError "Cannot read properties of undefined (reading 'length')"),
       w).
Proof.
  intros. split; [|reflexivity].
  intros [row [E _]]. discriminate E.
Qed.

(** When both validation phases return their rows and none of them
    succeeded, the original method is called with the original argument
    list and the original [this], and what it returns or throws, and the
    world it leaves, are those of the replacement method. *)
Theorem fallback_when_no_entry_matches :
  forall (World : Type) (ovs : Overloads World) (target : value)
         (originalMethod : func World) (this : value) (args : list value)
         (rows : list (OverloadParsedInputRow World)),
    validate ovs args = Ok rows ->
    Forall (fun row => succeeded row = false) rows ->
    dispatch ovs target originalMethod this args =
      Ok (Invoke originalMethod this args) /\
    forall w,
      Overload ovs target originalMethod this args w =
      originalMethod this args w.
Proof.
  intros World ovs target originalMethod this args rows Hv Hnone.
  assert (Hd : dispatch ovs target originalMethod this args =
               Ok (Invoke originalMethod this args)).
  { unfold dispatch, parsed. rewrite Hv. simpl.
    rewrite (no_success_no_head _ Hnone). reflexivity. }
  split; [exact Hd|].
  intros w. unfold Overload. rewrite Hd. reflexivity.
Qed.

Lemma fallback_witness :
  Overload
    [mkEntry Zod.ZodNumber (recording "H1") (Some (Num 1));
     mkEntry string_number_tuple (recording "H2") (Some (Num 2))]
    prototype (recording "original") instance [VString "x"] []
  = (Ok (VArray [instance; VString "x"]), ["original"]).
Proof.
  refine (proj2 (fallback_when_no_entry_matches Log
                   [mkEntry Zod.ZodNumber (recording "H1") (Some (Num 1));
                    mkEntry string_number_tuple (recording "H2") (Some (Num 2))]
                   prototype (recording "original") instance [VString "x"]
                   _ eq_refl _) []).
  repeat constructor.
Defined.

(** C9, on the code: called on an instance, a matched handler does not
    see the instance as [this]; it sees the object the decorator was
    applied to, the class prototype. *)
Lemma handler_does_not_see_the_receiver :
  Overload [mkEntry Zod.ZodString (recording "H") (Some (Num 1))]
    prototype (recording "original") instance [VString "x"] []
  = (Ok (VArray [prototype; VString "x"]), ["H"]) /\
  prototype <> instance.
Proof. split; [reflexivity | discriminate]. Qed.

(** For every selected row the handler is invoked with the decorator's
    [target] (the object the method was decorated on) bound as
    [this]. *)
Theorem handler_is_bound_to_the_decoration_target :
  forall (World : Type) (ovs : Overloads World) (target : value)
         (originalMethod : func World) (this : value) (args : list value)
         (row : OverloadParsedInputRow World),
    parsed ovs args = Ok (Some row) ->
    dispatch ovs target originalMethod this args =
      Ok (Invoke (handler row) target (actuals_of row)) /\
    forall w,
      Overload ovs target originalMethod this args w =
      handler row target (actuals_of row) w.
Proof.
  intros World ovs target originalMethod this args row Hp.
  assert (Hd : dispatch ovs target originalMethod this args =
               Ok (Invoke (handler row) target (actuals_of row))).
  { unfold dispatch. rewrite Hp. simpl.
    unfold parsed in Hp. apply bind_Ok_inv in Hp.
    destruct Hp as [rows [Hv Hhd]]. injection Hhd as Hhd.
    apply head_of_filter_In in Hhd. destruct Hhd as [Hin Hs].
    apply In_nth_error in Hin. destruct Hin as [i Ei].
    destruct (validate_nth _ _ _ _ _ Hv Ei) as [o [_ Erow]].
    rewrite (invoke_validated_row _ _ _ target Erow Hs).
    rewrite (validated_row_handler _ _ _ Erow). reflexivity. }
  split; [exact Hd|].
  intros w. unfold Overload. rewrite Hd. reflexivity.
Qed.

Lemma handler_binding_witness :
  Overload
    [mkEntry string_then_numbers (recording "V") (Some (Num 3))]
    prototype (recording "original") instance
    [VString "r"; VNumber 1; VNumber 2] []
  = (Ok (VArray [prototype; VString "r"; VNumber 1; VNumber 2]), ["V"]).
Proof.
  refine (proj2 (handler_is_bound_to_the_decoration_target Log
                   [mkEntry string_then_numbers (recording "V") (Some (Num 3))]
                   prototype (recording "original") instance
                   [VString "r"; VNumber 1; VNumber 2] _ eq_refl) []).
Defined.

(** C10: [new NoMatchedHandlerError(E, "a", "b", "c")] has the message
    ["a b c"] and its [overloads] field is [E]. *)
Theorem error_message_and_overloads :
  forall (World : Type) (E : Overloads World),
    message (NoMatchedHandlerError E ["a"; "b"; "c"]) = "a b c" /\
    overloads (NoMatchedHandlerError E ["a"; "b"; "c"]) = E.
Proof. intros. split; reflexivity. Qed.

(* ================================================================== *)
(** * Further properties of the dispatcher                            *)
(* ================================================================== *)



Lemma mapM_app {A B} (f : A -> result B) (l1 l2 : list A) :
  mapM f (l1 ++ l2) =
  (ys1 <- mapM f l1 ;; ys2 <- mapM f l2 ;; Ok (ys1 ++ ys2)).
Proof.
  induction l1 as [|x xs IH]; simpl.
  - destruct (mapM f l2); reflexivity.
  - destruct (f x) as [y|e]; simpl; [|reflexivity].
    rewrite IH. destruct (mapM f xs) as [ys|e]; simpl; [|reflexivity].
    destruct (mapM f l2); reflexivity.
Qed.

Lemma validate_app {World : Type} (ovs1 ovs2 : Overloads World)
  (args : list value) :
  validate (ovs1 ++ ovs2) args =
  (rows1 <- validate ovs1 args ;;
   rows2 <- validate ovs2 args ;;
   Ok (rows1 ++ rows2)).
Proof. unfold validate. rewrite List.map_app. apply mapM_app. Qed.

(** X5: every entry is validated before any is selected: an exception thrown
    while validating an entry ends the call, without any function being
    called, even when an entry declared before it matches. *)
Theorem validation_exception_ends_the_call :
  forall (World : Type) (pre post : Overloads World) (o : OverloadEntry World)
         (target : value) (originalMethod : func World) (this : value)
         (args : list value) (rows : list (OverloadParsedInputRow World))
         (e : exn) (w : World),
    validate pre args = Ok rows ->
    phase2 args (phase1 args o) = Throw e ->
    Overload (pre ++ o :: post) target originalMethod this args w
    = (Throw e, w).
Proof.
  intros World pre post o target originalMethod this args rows e w Hpre Ho.
  unfold Overload, dispatch, parsed.
  rewrite validate_app, Hpre. simpl.
  change (o :: post) with ([o] ++ post). rewrite validate_app.
  unfold validate at 1. simpl. rewrite Ho. reflexivity.
Qed.

Lemma validation_exception_witness :
  Overload
    ([mkEntry Zod.ZodString (recording "H1") (Some (Num 1))]
     ++ mkEntry (Zod.ZodCustom (fun _ => Throw (Thrown (VString "no"))))
          (recording "H2") (Some (Num 1))
     :: [])
    prototype (recording "original") instance [VString "x"] []
  = (Throw (Thrown (VString "no")), []).
Proof.
  refine (validation_exception_ends_the_call Log
            [mkEntry Zod.ZodString (recording "H1") (Some (Num 1))] []
            (mkEntry (Zod.ZodCustom (fun _ => Throw (Thrown (VString "no"))))
               (recording "H2") (Some (Num 1)))
            prototype (recording "original") instance [VString "x"]
            _ _ [] eq_refl eq_refl).
Defined.

(** X6: a list holding an entry classified no-arguments makes every call
    throw, whatever the other entries and the arguments are, and nothing
    is called. *)
Theorem list_with_no_arguments_entry_always_throws :
  forall (World : Type) (ovs : Overloads World) (o : OverloadEntry World)
         (target : value) (originalMethod : func World) (this : value)
         (args : list value) (w : World),
    In o ovs ->
    classify (entry_schema o) = no_params ->
    exists e, Overload ovs target originalMethod this args w = (Throw e, w).
Proof.
  intros World ovs o target originalMethod this args w Hin Hc.
  destruct (no_params_entry_always_throws ovs o args Hin Hc) as [e He].
  exists e. unfold Overload, dispatch, parsed. rewrite He. reflexivity.
Qed.

Lemma list_with_no_arguments_entry_witness :
  exists e,
    Overload
      [mkEntry Zod.ZodString (recording "H1") (Some (Num 1));
       mkEntry NO_PARAMS (recording "H2") None]
      prototype (recording "original") instance [VString "x"] []
    = (Throw e, []).
Proof.
  refine (list_with_no_arguments_entry_always_throws Log _
            (mkEntry NO_PARAMS (recording "H2") None) _ _ _ _ _ _ eq_refl).
  right. left. reflexivity.
Defined.

(** X8: for schemas whose checks are functions of the value alone (they
    keep no state and do nothing to the world), decorating a method that
    is already decorated, on the same target, is decorating it once with
    the outer list followed by the inner one, for every call on which
    the inner list's validation returns. *)
Theorem stacked_decorators_concatenate :
  forall (World : Type) (outer inner : Overloads World) (target : value)
         (originalMethod : func World) (this : value) (args : list value)
         (rows : list (OverloadParsedInputRow World)) (w : World),
    validate inner args = Ok rows ->
    Overload outer target (Overload inner target originalMethod) this args w
    = Overload (outer ++ inner) target originalMethod this args w.
Proof.
  intros World outer inner target originalMethod this args rows w Hin.
  unfold Overload at 1 3. unfold dispatch, parsed.
  rewrite validate_app, Hin.
  destruct (validate outer args) as [rows1|e]; simpl; [|reflexivity].
  rewrite List.filter_app.
  destruct (List.filter succeeded rows1) as [|r l] eqn:Ef; simpl.
  - unfold Overload, dispatch, parsed. rewrite Hin. simpl. reflexivity.
  - reflexivity.
Qed.

Lemma stacked_decorators_witness :
  Overload [mkEntry Zod.ZodNumber (recording "outer") (Some (Num 1))]
    prototype
    (Overload [mkEntry Zod.ZodString (recording "inner") (Some (Num 1))]
       prototype (recording "original"))
    instance [VString "x"] []
  = (Ok (VArray [prototype; VString "x"]), ["inner"]).
Proof.
  rewrite (stacked_decorators_concatenate Log
             [mkEntry Zod.ZodNumber (recording "outer") (Some (Num 1))]
             [mkEntry Zod.ZodString (recording "inner") (Some (Num 1))]
             prototype (recording "original") instance [VString "x"]
             _ [] eq_refl).
  reflexivity.
Defined.

(** Once an issue has been recorded, merging element outcomes cannot
    give a valid result. *)
Lemma mergeArray_loop_dirty (acc : list value)
  (results : list Zod.ParseReturnType) (d : value) :
  Zod.mergeArray_loop true acc results <> Zod.VALID d.
Proof.
  revert acc. induction results as [|r rs IH]; intros acc; simpl.
  - discriminate.
  - destruct r; [apply IH | apply IH | discriminate].
Qed.

(** A tuple schema is valid only on an array with at least as many
    elements as it has items, and exactly as many without a rest
    schema. *)
Lemma tuple_valid_length (items : list Zod.ZodTypeAny)
  (rest : option Zod.ZodTypeAny) (data : list value) (d : value) :
  Zod._parse (Zod.ZodTuple items rest) (VArray data) = Ok (Zod.VALID d) ->
  List.length items <= List.length data /\
  (rest = None -> List.length data = List.length items).
Proof.
  simpl. destruct (Nat.ltb (List.length data) (List.length items)) eqn:Elt;
    [discriminate|].
  apply Nat.ltb_ge in Elt. intros E.
  apply bind_Ok_inv in E. destruct E as [results [_ E]].
  injection E as E. split; [exact Elt|]. intros ->.
  unfold Zod.mergeArray in E.
  destruct (Nat.ltb (List.length items) (List.length data)) eqn:Egt.
  - exfalso. exact (mergeArray_loop_dirty _ _ _ E).
  - apply Nat.ltb_ge in Egt. lia.
Qed.

(** X9: a tuple entry can match only when its declared count is at least the
    number of its items, and is that number when the tuple has no rest
    schema; in particular a tuple entry with an item and no declared
    count never matches a call. *)
Theorem tuple_entry_needs_count_of_its_items :
  forall (World : Type) (o : OverloadEntry World)
         (items : list Zod.ZodTypeAny) (rest : option Zod.ZodTypeAny)
         (args : list value) (row : OverloadParsedInputRow World),
    entry_schema o = Zod.ZodTuple items rest ->
    phase2 args (phase1 args o) = Ok row ->
    succeeded row = true ->
    (Z.of_nat (List.length items) <= declared_count (entry_minArgs o))%Z /\
    (rest = None ->
     declared_count (entry_minArgs o) = Z.of_nat (List.length items)).
Proof.
  intros World o items rest args row Es E Hs.
  assert (Hc : classify (entry_schema o) <> no_params).
  { rewrite Es. discriminate. }
  apply (guarded_row_success _ _ _ Hc E) in Hs.
  destruct Hs as [Hlen [d [Ed _]]]. rewrite Es in Ed. simpl validated_input in Ed.
  apply tuple_valid_length in Ed. destruct Ed as [Hge Heq].
  rewrite <- Hlen. split; [lia|]. intros Hr. rewrite (Heq Hr). reflexivity.
Qed.

Lemma tuple_entry_count_witness :
  (Z.of_nat (List.length [Zod.ZodString; Zod.ZodNumber]) <= 2)%Z /\
  (@None Zod.ZodTypeAny = None ->
   2%Z = Z.of_nat (List.length [Zod.ZodString; Zod.ZodNumber])).
Proof.
  refine (tuple_entry_needs_count_of_its_items Log
            (mkEntry string_number_tuple (recording "T") (Some (Num 2)))
            [Zod.ZodString; Zod.ZodNumber] None
            [VString "a"; VNumber 1] _ eq_refl eq_refl eq_refl).
Defined.

(** X10: an entry that has arguments and declares no count, or the count 0,
    can match only the call without arguments, and only when its schema
    accepts what it is then given: [undefined] for a single-value entry,
    the empty list for a tuple or an array entry. *)
Theorem uncounted_entry_matches_only_the_empty_call :
  forall (World : Type) (o : OverloadEntry World) (args : list value)
         (row : OverloadParsedInputRow World),
    classify (entry_schema o) <> no_params ->
    declared_count (entry_minArgs o) = 0%Z ->
    phase2 args (phase1 args o) = Ok row ->
    succeeded row = true ->
    args = [] /\
    Zod._parse (entry_schema o)
      (validated_input (classify (entry_schema o)) [])
    = Ok (Zod.VALID (validated_input (classify (entry_schema o)) [])).
Proof.
  intros World o args row Hc H0 E Hs.
  destruct (succeeded_row_accepted _ _ _ Hc E Hs) as [[Hlen Hp] _].
  rewrite H0 in Hlen.
  destruct args as [|a args]; [|discriminate Hlen].
  split; [reflexivity | exact Hp].
Qed.

Lemma uncounted_entry_witness :
  @nil value = [] /\
  Zod._parse Zod.ZodAny VUndefined = Ok (Zod.VALID VUndefined).
Proof.
  refine (uncounted_entry_matches_only_the_empty_call Log
            (mkEntry Zod.ZodAny (recording "H") None) [] _ _ eq_refl
            eq_refl eq_refl).
  vm_compute. discriminate.
Defined.

Lemma no_success_no_head_nil {World : Type}
  (rows : list (OverloadParsedInputRow World)) :
  Forall (fun row => succeeded row = false) rows ->
  List.filter succeeded rows = [].
Proof.
  induction 1 as [|r rows Hr _ IH]; simpl.
  - reflexivity.
  - rewrite Hr. exact IH.
Qed.


(** The rows of a list none of whose entries accepts the call. *)
Lemma rejected_rows_fail {World : Type} (ovs : Overloads World)
  (args : list value) (rows : list (OverloadParsedInputRow World)) :
  Forall (fun p => classify (entry_schema p) <> no_params) ovs ->
  Forall (fun p => ~ accepts p args) ovs ->
  validate ovs args = Ok rows ->
  Forall (fun row => succeeded row = false) rows.
Proof.
  intros Hwf Hrej Hv. apply validate_Forall2 in Hv.
  induction Hv as [|o row ovs rows Eor _ IH].
  - constructor.
  - inversion Hwf as [|? ? Hc Hwf']; subst.
    inversion Hrej as [|? ? Hno Hrej']; subst.
    constructor; [|apply IH; assumption].
    destruct (succeeded row) eqn:Hs; [|reflexivity].
    exfalso. apply Hno.
    apply (succeeded_row_accepted _ _ _ Hc Eor Hs).
Qed.



(** X4: with no entry classified no-arguments and no check that throws, a
    call that no entry accepts goes to the original method, with the
    call's [this] and arguments. *)
Theorem call_no_entry_accepts_goes_to_the_original :
  forall (World : Type) (ovs : Overloads World) (target : value)
         (originalMethod : func World) (this : value) (args : list value),
    Forall (fun p => classify (entry_schema p) <> no_params /\
                     checks_return (entry_schema p)) ovs ->
    Forall (fun p => ~ accepts p args) ovs ->
    dispatch ovs target originalMethod this args =
    Ok (Invoke originalMethod this args).
Proof.
  intros World ovs target originalMethod this args Hwf Hrej.
  destruct (validate_returns ovs args Hwf) as [rows Hv].
  assert (Hfail : Forall (fun r => succeeded r = false) rows).
  { apply (rejected_rows_fail ovs args rows); [|exact Hrej | exact Hv].
    apply (Forall_impl _ (fun p H => proj1 H) Hwf). }
  unfold dispatch, parsed. rewrite Hv. simpl.
  rewrite (no_success_no_head_nil _ Hfail). reflexivity.
Qed.

Lemma no_entry_accepts_witness :
  dispatch
    [mkEntry Zod.ZodNumber (recording "H0") (Some (Num 1));
     mkEntry string_number_tuple (recording "H1") (Some (Num 2))]
    prototype (recording "original") instance [VString "x"]
  = Ok (Invoke (recording "original") instance [VString "x"]).
Proof.
  refine (call_no_entry_accepts_goes_to_the_original Log
            [mkEntry Zod.ZodNumber (recording "H0") (Some (Num 1));
             mkEntry string_number_tuple (recording "H1") (Some (Num 2))]
            prototype (recording "original") instance [VString "x"] _ _).
  - repeat constructor; discriminate.
  - constructor; [|constructor; [|constructor]].
    + intros [_ Hp]. discriminate Hp.
    + intros [Hlen _]. discriminate Hlen.
Defined.

(* ================================================================== *)
(** * Properties of the error message                                 *)
(* ================================================================== *)

Lemma trimStart_first (s : string) (c : ascii) :
  first_char (trimStart s) = Some c -> is_white_space c = false.
Proof.
  induction s as [|a rest IH]; simpl; [discriminate|].
  destruct (is_white_space a) eqn:Ea; [exact IH|].
  simpl. intros E. injection E as <-. exact Ea.
Qed.

Lemma trimEnd_first (s : string) (c : ascii) :
  first_char (trimEnd s) = Some c -> first_char s = Some c.
Proof.
  destruct s as [|a rest]; simpl; [discriminate|].
  destruct (trimEnd rest); [destruct (is_white_space a)|];
    simpl; intros E; try discriminate E; exact E.
Qed.

Lemma trimEnd_last (s : string) (c : ascii) :
  last_char (trimEnd s) = Some c -> is_white_space c = false.
Proof.
  induction s as [|a rest IH]; simpl; [discriminate|].
  destruct (trimEnd rest) as [|k ks] eqn:Erest.
  - destruct (is_white_space a) eqn:Ea; simpl; [discriminate|].
    intros E. injection E as <-. exact Ea.
  - intros E. apply IH. exact E.
Qed.

Lemma trimStart_fixed (s : string) (c : ascii) :
  first_char s = Some c -> is_white_space c = false -> trimStart s = s.
Proof.
  destruct s as [|a rest]; simpl; [discriminate|].
  intros E Hc. injection E as ->. rewrite Hc. reflexivity.
Qed.

Lemma trimEnd_fixed (s : string) (c : ascii) :
  last_char s = Some c -> is_white_space c = false -> trimEnd s = s.
Proof.
  induction s as [|a rest IH]; [discriminate|].
  intros E Hc. destruct rest as [|b rest'].
  - simpl in E. injection E as ->. simpl. rewrite Hc. reflexivity.
  - change (last_char (String a (String b rest')))
      with (last_char (String b rest')) in E.
    change (trimEnd (String a (String b rest')))
      with (match trimEnd (String b rest') with
            | EmptyString => if is_white_space a then EmptyString
                             else String a EmptyString
            | kept => String a kept
            end).
    rewrite (IH E Hc). reflexivity.
Qed.

Lemma first_char_app (a b : string) (c : ascii) :
  first_char a = Some c -> first_char (a ++ b) = Some c.
Proof. destruct a; simpl; [discriminate | exact (fun E => E)]. Qed.

Lemma last_char_app (a b : string) (c : ascii) :
  last_char b = Some c -> last_char (a ++ b) = Some c.
Proof.
  intros Hb. induction a as [|x a IH]; simpl; [exact Hb|].
  destruct (a ++ b)%string as [|y rest] eqn:E; [discriminate IH | exact IH].
Qed.

Lemma first_char_join (frags : list string) (c : ascii) :
  first_char (List.hd "" frags) = Some c ->
  first_char (join " " frags) = Some c.
Proof.
  destruct frags as [|w rest]; simpl; [discriminate|].
  intros E. destruct rest; [exact E | apply first_char_app; exact E].
Qed.

Lemma last_char_join (frags : list string) (c : ascii) :
  last_char (List.last frags "") = Some c ->
  last_char (join " " frags) = Some c.
Proof.
  induction frags as [|w rest IH]; [discriminate|].
  destruct rest as [|w2 rest'].
  - simpl. exact (fun E => E).
  - intros E.
    change (join " " (w :: w2 :: rest'))
      with (w ++ " " ++ join " " (w2 :: rest'))%string.
    apply last_char_app, last_char_app, IH. exact E.
Qed.

(** X12: whatever the fragments, the message neither starts nor ends with a
    white space character. *)
Theorem message_has_no_outer_white_space :
  forall (World : Type) (E : Overloads World) (frags : list string)
         (c : ascii),
    (first_char (message (NoMatchedHandlerError E frags)) = Some c ->
     is_white_space c = false) /\
    (last_char (message (NoMatchedHandlerError E frags)) = Some c ->
     is_white_space c = false).
Proof.
  intros World E frags c. simpl. unfold trim. split.
  - intros H. apply trimEnd_first in H. apply (trimStart_first _ _ H).
  - apply trimEnd_last.
Qed.

(** X13: when the first fragment starts and the last fragment ends with a
    character that is not white space, the message is the fragments
    joined by single spaces, with nothing removed. *)
Theorem message_of_clean_fragments_is_their_join :
  forall (World : Type) (E : Overloads World) (frags : list string)
         (c1 c2 : ascii),
    first_char (List.hd "" frags) = Some c1 -> is_white_space c1 = false ->
    last_char (List.last frags "") = Some c2 -> is_white_space c2 = false ->
    message (NoMatchedHandlerError E frags) = join " " frags.
Proof.
  intros World E frags c1 c2 H1 Hc1 H2 Hc2. simpl. unfold trim.
  rewrite (trimStart_fixed _ c1 (first_char_join _ _ H1) Hc1).
  apply (trimEnd_fixed _ c2 (last_char_join _ _ H2) Hc2).
Qed.

Lemma message_of_clean_fragments_witness :
  message (NoMatchedHandlerError (@nil (OverloadEntry Log))
             ["No"; "handler for"; "these  arguments"])
  = "No handler for these  arguments".
Proof.
  refine (message_of_clean_fragments_is_their_join Log []
            ["No"; "handler for"; "these  arguments"]
            "N"%char "s"%char eq_refl eq_refl eq_refl eq_refl).
Defined.

Lemma message_outer_white_space_witness :
  is_white_space "a"%char = false /\ is_white_space "b"%char = false.
Proof.
  split.
  - refine (proj1 (message_has_no_outer_white_space Log []
                     ["  a "; " b  "] "a"%char) eq_refl).
  - refine (proj2 (message_has_no_outer_white_space Log []
                     ["  a "; " b  "] "b"%char) eq_refl).
Defined.

Lemma list_ascii_of_string_app (a b : string) :
  list_ascii_of_string (a ++ b) =
  (list_ascii_of_string a ++ list_ascii_of_string b)%list.
Proof.
  induction a as [|x a IH]; simpl; [reflexivity|]. rewrite IH. reflexivity.
Qed.

Lemma trimStart_blank (s : string) :
  Forall (fun c => is_white_space c = true) (list_ascii_of_string s) ->
  trimStart s = "".
Proof.
  induction s as [|a rest IH]; simpl; intros H; [reflexivity|].
  inversion H as [|? ? Ha Hrest]; subst. rewrite Ha. apply IH. exact Hrest.
Qed.

Lemma join_blank (frags : list string) :
  Forall (fun f => Forall (fun c => is_white_space c = true)
                     (list_ascii_of_string f)) frags ->
  Forall (fun c => is_white_space c = true)
    (list_ascii_of_string (join " " frags)).
Proof.
  induction 1 as [|w rest Hw Hrest IH]; [constructor|].
  destruct rest as [|w2 rest']; [exact Hw|].
  change (join " " (w :: w2 :: rest'))
    with (w ++ " " ++ join " " (w2 :: rest'))%string.
  rewrite !list_ascii_of_string_app. apply Forall_app. split; [exact Hw|].
  apply Forall_app. split; [|exact IH].
  constructor; [reflexivity | constructor].
Qed.

(** X14: when the fragments hold white space only, and when there are none,
    the message is empty. *)
Theorem message_of_blank_fragments_is_empty :
  forall (World : Type) (E : Overloads World) (frags : list string),
    Forall (fun f => Forall (fun c => is_white_space c = true)
                       (list_ascii_of_string f)) frags ->
    message (NoMatchedHandlerError E frags) = "".
Proof.
  intros World E frags H. simpl. unfold trim.
  rewrite (trimStart_blank _ (join_blank _ H)). reflexivity.
Qed.

Lemma message_of_blank_fragments_witness :
  message (NoMatchedHandlerError (@nil (OverloadEntry Log)) [" "; ""; "  "])
  = "".
Proof.
  refine (message_of_blank_fragments_is_empty Log [] [" "; ""; "  "] _).
  repeat constructor.
Defined.

(* ================================================================== *)
(** * Validation of entries that have arguments                      *)
(* ================================================================== *)

(** X7: validation returns a row for every entry, and so throws nothing,
    on every call, when no entry is classified no-arguments and no check
    inside a schema throws. *)
Theorem validation_of_entries_with_arguments_returns :
  forall (World : Type) (ovs : Overloads World) (args : list value),
    Forall (fun o => classify (entry_schema o) <> no_params /\
                     checks_return (entry_schema o)) ovs ->
    exists rows,
      validate ovs args = Ok rows /\
      List.length rows = List.length ovs.
Proof.
  intros World ovs args H.
  destruct (validate_returns ovs args H) as [rows Hv].
  exists rows. split; [exact Hv|].
  apply validate_Forall2 in Hv. symmetry. apply (Forall2_length Hv).
Qed.

Lemma validation_returns_witness :
  exists rows,
    validate
      [mkEntry string_then_numbers (recording "V") (Some (Num 2));
       mkEntry (Zod.ZodArray Zod.ZodNumber) (recording "A") None]
      [VString "r"; VNumber 1] = Ok rows /\
    List.length rows = 2.
Proof.
  refine (validation_of_entries_with_arguments_returns Log
            [mkEntry string_then_numbers (recording "V") (Some (Num 2));
             mkEntry (Zod.ZodArray Zod.ZodNumber) (recording "A") None]
            [VString "r"; VNumber 1] _).
  repeat constructor; discriminate.
Defined.
